(** * The GEO dataset pipeline of [luigi_dz1.py]: a shallow embedding

    The pipeline is a chain of five Luigi tasks (download, extract, process,
    trim, cleanup).  Each task body is modelled as a computation over an
    explicit world (the files below the working directory and the log), in a
    state-and-exception monad.  The libraries the tasks call are modelled by
    what the calls observably do on the text and files the pipeline hands
    them:

    - Python [str] methods and [pathlib] names: module [Py];
    - [pandas.read_csv], [DataFrame.drop], [DataFrame.to_csv]: module
      [Pandas] (the tokenizer of the C engine: records, fields, padding of
      short rows, the error on a row that is too long, the header policy);
    - the file system, [pathlib.Path.glob], [mkdir], [unlink], [rmdir] and
      Luigi's [LocalTarget]: module [FS];
    - the three decoders that fetch or decode bytes ([wget.download],
      [tarfile], [gzip]) are parameters of the pipeline section.

    Scope of the model: text is ASCII; a dataset id, a file name and a section
    name are single path components; cells of a table keep the text of their
    field (pandas' dtype inference, quoting and renaming of duplicate or empty
    header names are not modelled). *)

From stdpp Require Import gmap strings list fin_maps pretty.
From Stdlib Require Import Ascii.

Local Open Scope stdpp_scope.

(** ** Python strings *)

Module Py.

(** [str.isspace] on ASCII: TAB, LF, VT, FF, CR, FS, GS, RS, US, SPACE. *)
Definition isspace (c : ascii) : bool :=
  let n := nat_of_ascii c in
  (Nat.leb 9 n && Nat.leb n 13) || (Nat.leb 28 n && Nat.leb n 32).

Fixpoint lstrip_by (p : ascii → bool) (s : string) : string :=
  match s with
  | EmptyString => EmptyString
  | String c s' => if p c then lstrip_by p s' else s
  end.

Fixpoint rstrip_by (p : ascii → bool) (s : string) : string :=
  match s with
  | EmptyString => EmptyString
  | String c s' =>
      match rstrip_by p s' with
      | EmptyString => if p c then EmptyString else String c EmptyString
      | r => String c r
      end
  end.

Definition strip_by (p : ascii → bool) (s : string) : string :=
  rstrip_by p (lstrip_by p s).

(** [s.strip()] *)
Definition strip : string → string := strip_by isspace.

Fixpoint contains (c : ascii) (chars : string) : bool :=
  match chars with
  | EmptyString => false
  | String d chars' => Ascii.eqb c d || contains c chars'
  end.

(** [s.strip(chars)]: every leading and every trailing character that
    occurs in [chars] is removed. *)
Definition strip_chars (chars : string) : string → string :=
  strip_by (λ c, contains c chars).

(** [s.startswith(pre)] *)
Fixpoint startswith (pre s : string) : bool :=
  match pre, s with
  | EmptyString, _ => true
  | String a pre', String b s' => Ascii.eqb a b && startswith pre' s'
  | String _ _, EmptyString => false
  end.

(** [s.endswith(suf)] *)
Definition endswith (suf s : string) : bool :=
  startswith (String.rev suf) (String.rev s).

(** [s.split(sep)] for a one-character separator: at least one piece. *)
Fixpoint split (sep : ascii) (s : string) : list string :=
  match s with
  | EmptyString => [EmptyString]
  | String c s' =>
      let r := split sep s' in
      if Ascii.eqb c sep then EmptyString :: r
      else match r with
           | h :: t => String c h :: t
           | [] => [String c EmptyString]
           end
  end.

(** Text mode with universal newlines: CR LF and a lone CR read as LF. *)
Fixpoint universal_newlines (s : string) : string :=
  match s with
  | EmptyString => EmptyString
  | String c s' =>
      if Ascii.eqb c "013" then
        match s' with
        | String d _ =>
            if Ascii.eqb d "010" then universal_newlines s'
            else String "010" (universal_newlines s')
        | EmptyString => String "010" EmptyString
        end
      else String c (universal_newlines s')
  end.

Definition drop_last_if_empty (ps : list string) : list string :=
  match reverse ps with
  | EmptyString :: r => reverse r
  | _ => ps
  end.

(** [for line in f]: the lines of a text file, without their terminator
    (the caller strips each line, which removes the terminator anyway). *)
Definition file_lines (text : string) : list string :=
  drop_last_if_empty (split "010" (universal_newlines text)).

(** [s[:n]] *)
Fixpoint take (n : nat) (s : string) : string :=
  match n, s with
  | S n', String c s' => String c (take n' s')
  | _, _ => EmptyString
  end.

(** [s.rfind(".")]: the index of the last dot. *)
Fixpoint rfind_dot (s : string) : option nat :=
  match s with
  | EmptyString => None
  | String c s' =>
      match rfind_dot s' with
      | Some i => Some (S i)
      | None => if Ascii.eqb c "." then Some 0 else None
      end
  end.

(** [PurePath.stem]: the name without its last suffix; a name whose only
    dot is the first or the last character has no suffix. *)
Definition stem (name : string) : string :=
  match rfind_dot name with
  | Some i =>
      if Nat.ltb 0 i && Nat.ltb i (String.length name - 1)
      then take i name else name
  | None => name
  end.

End Py.

Definition TAB : string := String "009" EmptyString.
Definition LF : string := String "010" EmptyString.

(** ** Exceptions *)

(** The exception classes the pipeline raises or names in an [except]
    clause, with Python's subclass order. *)
Inductive exn_class :=
  | Exception
  | OSError
  | FileNotFoundError
  | FileExistsError
  | IsADirectoryError
  | NotADirectoryError
  | BadGzipFile
  | TarError
  | EOFError
  | ValueError
  | EmptyDataError
  | ParserError
  | TaskFailed.

Global Instance exn_class_eq_dec : EqDecision exn_class.
Proof. solve_decision. Defined.

Definition base_class (c : exn_class) : option exn_class :=
  match c with
  | Exception => None
  | FileNotFoundError | FileExistsError | IsADirectoryError
  | NotADirectoryError | BadGzipFile => Some OSError
  | EmptyDataError | ParserError => Some ValueError
  | OSError | TarError | EOFError | ValueError | TaskFailed => Some Exception
  end.

(** [issubclass c d]; the class tree is three levels deep. *)
Definition issubclass (c d : exn_class) : bool :=
  bool_decide (c = d)
  || bool_decide (base_class c = Some d)
  || bool_decide (base_class c ≫= base_class = Some d).

Record exn := Exn { exn_type : exn_class; exn_msg : string }.

Global Instance exn_eq_dec : EqDecision exn.
Proof. solve_decision. Defined.

(** [isinstance(e, (c1, c2, ...))], the test of an [except] clause. *)
Definition isinstance (e : exn) (cs : list exn_class) : bool :=
  existsb (issubclass (exn_type e)) cs.

Inductive result (A : Type) :=
  | Ok (a : A)
  | Raise (e : exn).
Arguments Ok {A} a.
Arguments Raise {A} e.

(** ** pandas *)

Module Pandas.

(** A column label: a name read from a header row, or a position when
    the frame is read without a header. *)
Inductive label :=
  | Name (s : string)
  | Pos (i : nat).

Global Instance label_eq_dec : EqDecision label.
Proof. solve_decision. Defined.

(** A frame, row by row.  [index] holds, for each row, the cells that
    [read_csv] moved into the row index (none for the default index);
    [rows] holds the cells under [columns]. *)
Record DataFrame := {
  columns : list label;
  index : list (list string);
  rows : list (list string)
}.

Global Instance DataFrame_eq_dec : EqDecision DataFrame.
Proof. solve_decision. Defined.

(** The [header] argument of [read_csv]. *)
Inductive header_arg :=
  | HeaderNone
  | HeaderInfer.

(** With [skip_blank_lines], a line of spaces only is no record. *)
Fixpoint is_blank (l : string) : bool :=
  match l with
  | EmptyString => true
  | String c l' => Ascii.eqb c " " && is_blank l'
  end.

(** The lines of the input, numbered from 1 as the tokenizer counts
    them. *)
Definition numbered_lines (text : string) : list (nat * string) :=
  zip (seq 1 (length (Py.split "010" (Py.universal_newlines text))))
      (Py.split "010" (Py.universal_newlines text)).

(** The records: the fields of every line that is not blank. *)
Definition records (text : string) : list (nat * list string) :=
  prod_map id (Py.split "009")
    <$> filter (λ nl, negb (is_blank nl.2)) (numbered_lines text).

(** A short row gets empty trailing fields (read as missing values). *)
Definition pad (width : nat) (fields : list string) : list string :=
  fields ++ replicate (width - length fields) EmptyString.

Definition too_many_fields (width lineno saw : nat) : exn :=
  Exn ParserError
    ("Error tokenizing data. C error: Expected " +:+ pretty width
     +:+ " fields in line " +:+ pretty lineno +:+ ", saw " +:+ pretty saw
     +:+ LF).

(** The rows after the one that fixed the width: a row with more fields
    than the previous row is an error, a shorter one is padded, so every
    row has [width] fields. *)
Fixpoint tokenize (width : nat) (recs : list (nat * list string))
    : result (list (list string)) :=
  match recs with
  | [] => Ok []
  | (lineno, fields) :: recs' =>
      if Nat.ltb width (length fields)
      then Raise (too_many_fields width lineno (length fields))
      else match tokenize width recs' with
           | Ok rest => Ok (pad width fields :: rest)
           | Raise e => Raise e
           end
  end.

Definition no_columns : exn :=
  Exn EmptyDataError "No columns to parse from file".

(** [pd.read_csv(buffer, sep='\t', header=header)] on the text of the
    buffer.

    - no record at all: [EmptyDataError];
    - [header=None]: the first record is a data row and fixes the width;
      the columns are the positions;
    - [header='infer']: the first record gives the column names; the
      first data row is never too long: its extra leading cells become
      the row index, and it fixes the width of the rows after it. *)
Definition read_csv (text : string) (header : header_arg)
    : result DataFrame :=
  match records text, header with
  | [], _ => Raise no_columns
  | (_, first) :: data, HeaderNone =>
      match tokenize (length first) data with
      | Ok rest =>
          Ok {| columns := Pos <$> seq 0 (length first);
                index := (λ _, []) <$> (first :: rest);
                rows := first :: rest |}
      | Raise e => Raise e
      end
  | (_, names) :: data, HeaderInfer =>
      let width :=
        match data with
        | [] => length names
        | (_, row1) :: _ => Nat.max (length names) (length row1)
        end in
      match tokenize width data with
      | Ok rs =>
          Ok {| columns := Name <$> names;
                index := take (width - length names) <$> rs;
                rows := drop (width - length names) <$> rs |}
      | Raise e => Raise e
      end
  end.

(** Cells of a row under the columns that are not in [labels]. *)
Fixpoint drop_cells (labels cols : list label) (row : list string)
    : list string :=
  match cols, row with
  | c :: cols', x :: row' =>
      if bool_decide (c ∈ labels) then drop_cells labels cols' row'
      else x :: drop_cells labels cols' row'
  | _, _ => []
  end.

(** [df.drop(columns=labels, errors='ignore')]: a new frame without the
    columns whose label is listed; labels that are no column are
    ignored. *)
Definition drop (labels : list label) (df : DataFrame) : DataFrame :=
  {| columns := filter (λ c, c ∉ labels) (columns df);
     index := index df;
     rows := drop_cells labels (columns df) <$> rows df |}.

Definition label_str (l : label) : string :=
  match l with
  | Name s => s
  | Pos i => pretty i
  end.

Definition csv_line (fields : list string) : string :=
  String.concat TAB fields +:+ LF.

(** The text [df.to_csv(path, sep='\t', index=False)] writes: the
    labels, then one line per row, without the row index. *)
Definition to_csv (df : DataFrame) : string :=
  String.concat EmptyString
    (csv_line (label_str <$> columns df) :: (csv_line <$> rows df)).

End Pandas.

(** ** The world and the computations over it *)

Inductive level :=
  | INFO
  | WARNING
  | ERROR.

Record log_record := LogRecord { levelname : level; message : string }.

(** An entry of the file system: a regular file with its content, or a
    directory.  A path is the list of its components below the working
    directory; the working directory itself is the empty path. *)
Inductive node :=
  | File (data : string)
  | Dir.

Global Instance node_eq_dec : EqDecision node.
Proof. solve_decision. Defined.

Record world := World {
  files : gmap (list string) node;
  log : list log_record
}.

(** A computation changes the world and returns a value or raises; what
    it wrote before raising stays written. *)
Definition M (A : Type) : Type := world → result A * world.

Global Instance M_ret : MRet M := λ A a w, (Ok a, w).

Global Instance M_bind : MBind M := λ A B k m w,
  match m w with
  | (Ok a, w') => k a w'
  | (Raise e, w') => (Raise e, w')
  end.

Definition raise {A} (e : exn) : M A := λ w, (Raise e, w).

Definition lift {A} (r : result A) : M A := λ w, (r, w).

(** The [except] clauses of a [try], tried in order. *)
Fixpoint handle {A} (clauses : list (list exn_class * (exn → M A)))
    (e : exn) : M A :=
  match clauses with
  | [] => raise e
  | (cs, handler) :: rest =>
      if isinstance e cs then handler e else handle rest e
  end.

Definition try_except {A} (body : M A)
    (clauses : list (list exn_class * (exn → M A))) : M A := λ w,
  match body w with
  | (Ok a, w') => (Ok a, w')
  | (Raise e, w') => handle clauses e w'
  end.

(** [for x in xs: body x]; an exception leaves the loop. *)
Fixpoint for_each {A} (xs : list A) (body : A → M unit) : M unit :=
  match xs with
  | [] => mret tt
  | x :: xs' => body x ;; for_each xs' body
  end.

Definition get_files : M (gmap (list string) node) := λ w, (Ok (files w), w).

Definition set_files (σ : gmap (list string) node) : M unit := λ w,
  (Ok tt, {| files := σ; log := log w |}).

Definition logger (lvl : level) (msg : string) : M unit := λ w,
  (Ok tt, {| files := files w; log := log w ++ [LogRecord lvl msg] |}).

(** ** Files and directories *)

Module FS.

Definition parent (p : list string) : list string := removelast p.

Definition name (p : list string) : string := List.last p EmptyString.

(** [str(path)] *)
Definition path_str (p : list string) : string := String.concat "/" p.

Definition is_dir (σ : gmap (list string) node) (p : list string) : bool :=
  match p with
  | [] => true
  | _ => bool_decide (σ !! p = Some Dir)
  end.

Definition exists_ (σ : gmap (list string) node) (p : list string) : bool :=
  match p with
  | [] => true
  | _ => bool_decide (is_Some (σ !! p))
  end.

Definition os_error (c : exn_class) (p : list string) : exn :=
  Exn c (path_str p).

(** Why a name cannot be created or opened below the parent of [p]:
    the parent is missing, or is no directory. *)
Definition parent_error (σ : gmap (list string) node) (p : list string)
    : option exn :=
  if is_dir σ (parent p) then None
  else if exists_ σ (parent p) then Some (os_error NotADirectoryError p)
  else Some (os_error FileNotFoundError p).

(** [os.mkdir(p)] *)
Definition os_mkdir (p : list string) : M unit :=
  σ ← get_files;
  match parent_error σ p with
  | Some e => raise e
  | None =>
      if exists_ σ p then raise (os_error FileExistsError p)
      else set_files (<[p := Dir]> σ)
  end.

(** [p.mkdir(exist_ok=True)] *)
Definition mkdir (p : list string) : M unit :=
  try_except (os_mkdir p)
    [([FileNotFoundError], raise);
     ([OSError], λ e, σ ← get_files;
                      if is_dir σ p then mret tt else raise e)].

(** [p.mkdir(parents=True, exist_ok=True)], by recursion on the
    reversed path: a missing parent is created first. *)
Fixpoint mkdir_parents_rev (rp : list string) : M unit :=
  try_except (os_mkdir (reverse rp))
    [([FileNotFoundError], λ e,
        match rp with
        | [] => raise e
        | _ :: rparent => mkdir_parents_rev rparent ;; mkdir (reverse rp)
        end);
     ([OSError], λ e, σ ← get_files;
                      if is_dir σ (reverse rp) then mret tt else raise e)].

Definition mkdir_parents (p : list string) : M unit :=
  mkdir_parents_rev (reverse p).

(** [open(p, 'w')], write, close.  The same entry results from a write
    to a temporary file that is renamed to [p]. *)
Definition write_file (p : list string) (data : string) : M unit :=
  σ ← get_files;
  match parent_error σ p with
  | Some e => raise e
  | None =>
      if is_dir σ p then raise (os_error IsADirectoryError p)
      else set_files (<[p := File data]> σ)
  end.

(** [open(p, 'r').read()] (bytes or text alike) *)
Definition read_file (p : list string) : M string :=
  σ ← get_files;
  match p, σ !! p with
  | _ :: _, Some (File data) => mret data
  | _ :: _, None => raise (os_error FileNotFoundError p)
  | _, _ => raise (os_error IsADirectoryError p)
  end.

(** [p.unlink()] *)
Definition unlink (p : list string) : M unit :=
  σ ← get_files;
  match p, σ !! p with
  | _ :: _, Some (File _) => set_files (delete p σ)
  | _ :: _, None => raise (os_error FileNotFoundError p)
  | _, _ => raise (os_error IsADirectoryError p)
  end.

(** The entries of directory [d], in the order the system lists them;
    nothing when [d] is no directory. *)
Definition scandir (σ : gmap (list string) node) (d : list string)
    : list (list string) :=
  if is_dir σ d
  then filter (λ p, p ≠ [] ∧ parent p = d) (map_to_list σ).*1
  else [].

(** [p.rmdir()] *)
Definition rmdir (p : list string) : M unit :=
  σ ← get_files;
  match p, σ !! p with
  | _ :: _, Some Dir =>
      match scandir σ p with
      | [] => set_files (delete p σ)
      | _ :: _ => raise (os_error OSError p)
      end
  | _ :: _, Some (File _) => raise (os_error NotADirectoryError p)
  | _, _ => raise (os_error FileNotFoundError p)
  end.

(** [for p in d.glob(pattern): body p] for a pattern that is one
    wildcard name: the entries of [d] are listed once, then filtered. *)
Definition glob_for (matches : string → bool) (d : list string)
    (body : list string → M unit) : M unit :=
  σ ← get_files;
  for_each (filter (λ p, matches (name p)) (scandir σ d)) body.

(** [for p in d.glob("**/" + pattern): body p], as pathlib's selectors
    run it: the matching entries of a directory are yielded (and the loop
    body runs on each) before the directory is listed again to descend
    into its subdirectories.  [depth] bounds the descent. *)
Fixpoint rglob_walk (depth : nat) (matches : string → bool)
    (d : list string) (body : list string → M unit) : M unit :=
  match depth with
  | 0 => mret tt
  | S depth' =>
      glob_for matches d body ;;
      σ ← get_files;
      for_each (filter (λ p, is_dir σ p) (scandir σ d))
        (λ sub, rglob_walk depth' matches sub body)
  end.

(** The length of the longest path. *)
Definition max_depth (σ : gmap (list string) node) : nat :=
  max_list (length <$> (map_to_list σ).*1).

(** No entry lies deeper than the longest path, which bounds the descent
    when the loop body adds no entry below [d]. *)
Definition rglob_for (matches : string → bool) (d : list string)
    (body : list string → M unit) : M unit :=
  σ ← get_files;
  rglob_walk (S (max_depth σ)) matches d body.

(** Luigi's [LocalTarget(p).open('w')], write, close: the parent
    directories are created (errors of that step are ignored), the
    content goes to a temporary file that is renamed to [p] on close. *)
Definition LocalTarget_write (p : list string) (data : string) : M unit :=
  try_except (mkdir_parents (parent p)) [([OSError], λ _, mret tt)] ;;
  write_file p data.

End FS.

(** ** Python dictionaries *)

(** [d[k] = v]: the value of an existing key is replaced in place, a new
    key goes last. *)
Fixpoint dict_set {V} (k : string) (v : V) (d : list (string * V))
    : list (string * V) :=
  match d with
  | [] => [(k, v)]
  | (k', v') :: d' =>
      if bool_decide (k' = k) then (k, v) :: d'
      else (k', v') :: dict_set k v d'
  end.

Fixpoint dict_get {V} (k : string) (d : list (string * V)) : option V :=
  match d with
  | [] => None
  | (k', v') :: d' => if bool_decide (k' = k) then Some v' else dict_get k d'
  end.

(** ** The tasks *)

(** The truth value of [current_section]: [None] and the empty string are
    false. *)
Definition truthy (section : option string) : bool :=
  match section with
  | None | Some EmptyString => false
  | Some _ => true
  end.

Definition section_name (section : option string) : string :=
  default EmptyString section.

(** [ProcessFiles._finalize_section]; the dictionary [dfs], which the code
    updates in place, is returned. *)
Definition _finalize_section (dfs : list (string * Pandas.DataFrame))
    (section : option string) (buffer : string)
    : M (list (string * Pandas.DataFrame)) :=
  if negb (truthy section) || Nat.eqb (String.length buffer) 0 then mret dfs
  else
    try_except
      (let header :=
         if bool_decide (section = Some "Heading")
         then Pandas.HeaderNone else Pandas.HeaderInfer in
       df ← lift (Pandas.read_csv buffer header);
       mret (dict_set (section_name section) df dfs))
      [([EmptyDataError], λ _,
          logger WARNING
            ("Empty section " +:+ section_name section +:+ " in file") ;;
          mret dfs)].

(** The local variables of the loop of [_process_text_file]. *)
Record parser_state := ParserState {
  dfs : list (string * Pandas.DataFrame);
  current_section : option string;
  buffer : string
}.

(** One turn of the loop [for line in f]. *)
Definition parse_line (st : parser_state) (line : string) : M parser_state :=
  let line := Py.strip line in
  if Py.startswith "[" line then
    dfs' ← _finalize_section (dfs st) (current_section st) (buffer st);
    mret (ParserState dfs' (Some (Py.strip_chars "[]" line)) EmptyString)
  else if truthy (current_section st) then
    mret (ParserState (dfs st) (current_section st)
            (buffer st +:+ line +:+ LF))
  else mret st.

Fixpoint parse_lines (st : parser_state) (lines : list string)
    : M parser_state :=
  match lines with
  | [] => mret st
  | line :: lines' => st' ← parse_line st line; parse_lines st' lines'
  end.

(** The loop over the lines of the text and the call that processes the
    final section: the tables of one text file. *)
Definition parse_text (text : string)
    : M (list (string * Pandas.DataFrame)) :=
  st ← parse_lines (ParserState [] None EmptyString) (Py.file_lines text);
  _finalize_section (dfs st) (current_section st) (buffer st).

(** [ProcessFiles._process_text_file] *)
Definition _process_text_file (txt_path tables_dir : list string) : M unit :=
  text ← FS.read_file txt_path;
  dfs ← parse_text text;
  for_each dfs (λ '(section, df),
    FS.write_file (tables_dir ++ [section +:+ ".tsv"]) (Pandas.to_csv df)).

Definition columns_to_drop : list string :=
  ["Definition"; "Ontology_Component"; "Ontology_Process";
   "Ontology_Function"; "Synonyms"; "Obsolete_Probe_Id"; "Probe_Sequence"].

(** The two lines of [_process_probes_file] that compute [df_trimmed]
    from [df]. *)
Definition prune (df : Pandas.DataFrame) : Pandas.DataFrame :=
  let existing_columns :=
    filter (λ col, Pandas.Name col ∈ Pandas.columns df) columns_to_drop in
  Pandas.drop (Pandas.Name <$> existing_columns) df.

(** [TrimProbes._process_probes_file] *)
Definition _process_probes_file (input_path output_dir : list string)
    : M unit :=
  try_except
    (text ← FS.read_file input_path;
     df ← lift (Pandas.read_csv text Pandas.HeaderInfer);
     let df_trimmed := prune df in
     FS.write_file (output_dir ++ ["Probes_trimmed.tsv"])
       (Pandas.to_csv df_trimmed))
    [([Exception], λ e,
        logger ERROR ("Failed to process " +:+ FS.path_str input_path
                      +:+ ": " +:+ exn_msg e))].

Inductive stage :=
  | Download
  | Extract
  | Process
  | Trim
  | Cleanup.

Global Instance stage_eq_dec : EqDecision stage.
Proof. solve_decision. Defined.

Global Instance stage_countable : Countable stage.
Proof.
  refine (inj_countable'
    (λ s, match s with
          | Download => 0 | Extract => 1 | Process => 2
          | Trim => 3 | Cleanup => 4 end)
    (λ n, match n with
          | 0 => Download | 1 => Extract | 2 => Process
          | 3 => Trim | _ => Cleanup end) _).
  by intros [].
Defined.

(** The [output()] of each task: the path whose existence marks the task
    complete. *)
Definition output (s : stage) (dataset_id : string) : list string :=
  match s with
  | Download => ["data"; "raw"; dataset_id +:+ "_RAW.tar"]
  | Extract => ["data"; "extracted"; dataset_id; "_unpacked"]
  | Process => ["data"; "processed"; dataset_id; "_processed"]
  | Trim => ["data"; "trimmed"; dataset_id; "_trimmed"]
  | Cleanup => ["data"; "cleanup"; dataset_id; "_cleanup"]
  end.

Section Tasks.

(** The decoders.  [wget_download url] is the archive found at [url] or
    the exception of the transfer; [tar_members bytes] lists the members
    that [extractall] writes, in order, and the exception that ends the
    extraction early, if any (an unreadable archive has no member and an
    exception); [gzip_read bytes] is the text decompressed before the
    exception, if any, that ends the decompression. *)
Context (wget_download : string → result string).
Context (tar_members : string → list (list string * node) * option exn).
Context (gzip_read : string → string * option exn).

Definition raise_if_any (e : option exn) : M unit :=
  match e with
  | Some e => raise e
  | None => mret tt
  end.





(** [with gzip.open(gz_file, 'rb') as f_in, open(txt_path, 'wb') as
    f_out: shutil.copyfileobj(f_in, f_out)] *)
Definition gunzip_to (gz_file txt_path : list string) : M unit :=
  bytes ← FS.read_file gz_file;
  FS.write_file txt_path (gzip_read bytes).1 ;;
  raise_if_any (gzip_read bytes).2.

(** The body of the loop of [ProcessFiles.run]. *)
Definition process_gz_file (output_dir gz_file : list string) : M unit :=
  let file_stem := Py.stem (FS.name gz_file) in
  let file_dir := output_dir ++ [file_stem] in
  FS.mkdir file_dir ;;
  let txt_path := file_dir ++ [file_stem +:+ ".txt"] in
  decompressed ←
    try_except (gunzip_to gz_file txt_path ;; mret true)
      [([BadGzipFile; OSError], λ e,
          logger ERROR ("Failed to decompress " +:+ FS.path_str gz_file
                        +:+ ": " +:+ exn_msg e) ;;
          mret false)];
  if decompressed : bool then
    let tables_dir := file_dir ++ ["tables"] in
    FS.mkdir tables_dir ;;
    _process_text_file txt_path tables_dir
  else mret tt.

(** [ProcessFiles.run] *)
Definition ProcessFiles_run (dataset_id : string) : M unit :=
  let input_dir := ["data"; "extracted"; dataset_id] in
  let output_dir := ["data"; "processed"; dataset_id] in
  FS.mkdir_parents output_dir ;;
  FS.glob_for (Py.endswith ".gz") input_dir (process_gz_file output_dir) ;;
  FS.LocalTarget_write (output Process dataset_id) "done".

(** The body of the loop of [TrimProbes.run]. *)
Definition trim_probes_file (processed_dir output_dir probes_path : list string)
    : M unit :=
  let relative_path :=
    FS.parent (drop (length processed_dir) probes_path) in
  let trimmed_dir := output_dir ++ relative_path in
  FS.mkdir_parents trimmed_dir ;;
  _process_probes_file probes_path trimmed_dir.


(** The body of the first loop of [Cleanup.run]. *)
Definition unlink_if_exists (txt_file : list string) : M unit :=
  try_except (FS.unlink txt_file) [([FileNotFoundError], λ _, mret tt)].

(** The body of the second loop of [Cleanup.run]. *)
Definition remove_if_empty (root_dir : list string) : M unit :=
  σ ← get_files;
  if FS.is_dir σ root_dir && bool_decide (FS.scandir σ root_dir = []) then
    try_except (FS.rmdir root_dir) [([OSError], λ _, mret tt)]
  else mret tt.

(** [Cleanup.run] *)
Definition Cleanup_run (dataset_id : string) : M unit :=
  let processed_dir := ["data"; "processed"; dataset_id] in
  FS.rglob_for (Py.endswith ".txt") processed_dir unlink_if_exists ;;
  FS.rglob_for (λ _, true) processed_dir remove_if_empty ;;
  FS.LocalTarget_write (output Cleanup dataset_id) "done".


End Tasks.

(** * Properties *)

(** Unfolds the monad operations in the goal. *)
Ltac unfold_M :=
  unfold mbind, M_bind, mret, M_ret, lift, raise, try_except, logger,
    get_files, set_files; simpl.

(** ** Strings *)

Definition is_bracket (c : ascii) : bool := Py.contains c "[]".

Fixpoint all_chars (p : ascii → bool) (s : string) : bool :=
  match s with
  | EmptyString => true
  | String c s' => p c && all_chars p s'
  end.

Definition first_char (s : string) : option ascii :=
  match s with
  | EmptyString => None
  | String c _ => Some c
  end.

Fixpoint last_char (s : string) : option ascii :=
  match s with
  | EmptyString => None
  | String c EmptyString => Some c
  | String _ s' => last_char s'
  end.

Lemma append_cons c (s t : string) : String c s +:+ t = String c (s +:+ t).
Proof. reflexivity. Qed.

Lemma append_nil_l (t : string) : EmptyString +:+ t = t.
Proof. reflexivity. Qed.

Lemma append_nil_r (s : string) : s +:+ EmptyString = s.
Proof.
  induction s as [|c s IH]; [done|]. by rewrite append_cons, IH.
Qed.

Lemma append_assoc (a b c : string) : (a +:+ b) +:+ c = a +:+ b +:+ c.
Proof.
  induction a as [|x a IH]; [done|]. by rewrite !append_cons, IH.
Qed.

Lemma lstrip_by_split p s :
  ∃ pre, s = pre +:+ Py.lstrip_by p s ∧ all_chars p pre = true.
Proof.
  induction s as [|c s [pre [Hs Hpre]]]; simpl.
  - by exists EmptyString.
  - destruct (p c) eqn:Hc.
    + exists (String c pre). simpl. rewrite Hc, Hpre, append_cons.
      split; [|done]. by rewrite <- Hs.
    + by exists EmptyString.
Qed.

Lemma rstrip_by_split p s :
  ∃ post, s = Py.rstrip_by p s +:+ post ∧ all_chars p post = true.
Proof.
  induction s as [|c s [post [Hs Hpost]]]; simpl.
  - by exists EmptyString.
  - destruct (Py.rstrip_by p s) as [|d r] eqn:Hr.
    + rewrite append_nil_l in Hs. destruct (p c) eqn:Hc.
      * exists (String c post). simpl. rewrite Hc, Hpost, append_nil_l.
        split; [|done]. by rewrite <- Hs.
      * exists post. rewrite append_cons, append_nil_l.
        split; [|done]. by rewrite <- Hs.
    + exists post. split; [|done]. rewrite append_cons. by rewrite <- Hs.
Qed.

Lemma lstrip_by_first p s c :
  first_char (Py.lstrip_by p s) = Some c → p c = false.
Proof.
  induction s as [|d s IH]; simpl; [done|].
  destruct (p d) eqn:Hd; [done|]. simpl. by intros [= <-].
Qed.

Lemma rstrip_by_last p s c :
  last_char (Py.rstrip_by p s) = Some c → p c = false.
Proof.
  induction s as [|d s IH]; simpl; [done|].
  destruct (Py.rstrip_by p s) as [|e r] eqn:Hr.
  - destruct (p d) eqn:Hd; simpl; [done|]. by intros [= <-].
  - simpl. destruct r; apply IH.
Qed.

Lemma rstrip_by_first p s c :
  first_char (Py.rstrip_by p s) = Some c → first_char s = Some c.
Proof.
  destruct s as [|d s]; simpl; [done|].
  destruct (Py.rstrip_by p s); [destruct (p d)|]; simpl; done.
Qed.

Lemma rstrip_by_all p s : all_chars p s = true → Py.rstrip_by p s = EmptyString.
Proof.
  induction s as [|c s IH]; simpl; [done|].
  intros [Hc Hs]%andb_true_iff. by rewrite IH, Hc.
Qed.

Lemma lstrip_by_all p s : all_chars p s = true → Py.lstrip_by p s = EmptyString.
Proof.
  induction s as [|c s IH]; simpl; [done|].
  intros [Hc Hs]%andb_true_iff. by rewrite Hc, IH.
Qed.

(** [strip] removes a prefix and a suffix made of the stripped characters
    only, and what is left neither starts nor ends with such a character. *)
Lemma strip_by_spec p s :
  ∃ pre post,
    s = pre +:+ Py.strip_by p s +:+ post
    ∧ all_chars p pre = true ∧ all_chars p post = true
    ∧ (∀ c, first_char (Py.strip_by p s) = Some c → p c = false)
    ∧ (∀ c, last_char (Py.strip_by p s) = Some c → p c = false).
Proof.
  unfold Py.strip_by.
  destruct (lstrip_by_split p s) as [pre [Hs Hpre]].
  destruct (rstrip_by_split p (Py.lstrip_by p s)) as [post [Hl Hpost]].
  exists pre, post. split_and!; [|done|done| |].
  - by rewrite <- Hl.
  - intros c Hc. eapply lstrip_by_first, rstrip_by_first, Hc.
  - apply rstrip_by_last.
Qed.

Lemma rstrip_by_unchanged p s :
  (∀ c, last_char s = Some c → p c = false) → Py.rstrip_by p s = s.
Proof.
  induction s as [|c s IH]; simpl; [done|]. intros Hlast.
  destruct s as [|d s].
  - simpl. by rewrite (Hlast c).
  - rewrite IH; [done|]. intros e He. apply Hlast. by simpl in *.
Qed.

Lemma rstrip_by_app_all p s post :
  all_chars p post = true → Py.rstrip_by p (s +:+ post) = Py.rstrip_by p s.
Proof.
  intros Hpost. induction s as [|c s IH].
  - rewrite append_nil_l. by apply rstrip_by_all.
  - rewrite append_cons. simpl. by rewrite IH.
Qed.

(** A line [[name]] whose name has no bracket at either end: stripping the
    brackets removes the first and the last character. *)
Lemma strip_chars_bracketed name :
  (∀ c, first_char name = Some c → is_bracket c = false) →
  (∀ c, last_char name = Some c → is_bracket c = false) →
  Py.strip_chars "[]" ("[" +:+ name +:+ "]") = name.
Proof.
  intros Hfirst Hlast. unfold Py.strip_chars, Py.strip_by.
  rewrite append_cons, append_nil_l. cbn [Py.lstrip_by].
  change (Py.contains "[" "[]") with true. cbv iota.
  destruct name as [|c name]; [done|].
  rewrite append_cons. cbn [Py.lstrip_by].
  fold (is_bracket c). rewrite (Hfirst c); [|done].
  rewrite <- append_cons, rstrip_by_app_all; [|done].
  by apply rstrip_by_unchanged.
Qed.

(** ** The section parser *)

Definition sample_text : string :=
  "[A]" +:+ LF +:+ "x" +:+ TAB +:+ "y" +:+ LF +:+ "1" +:+ TAB +:+ "2" +:+ LF
  +:+ "[B]" +:+ LF +:+ "p" +:+ TAB +:+ "q" +:+ LF +:+ "3" +:+ TAB +:+ "4"
  +:+ LF.

(** C3.  The text [[A]\nx\ty\n1\t2\n[B]\np\tq\n3\t4\n] parses to exactly
    two tables, in any world and without a log record: table [A] with the
    header [x, y] and the one row [1, 2], and table [B] with the header
    [p, q] and the one row [3, 4]. *)
Theorem parse_text_sample (w : world) :
  parse_text sample_text w =
    (Ok [("A", {| Pandas.columns := [Pandas.Name "x"; Pandas.Name "y"];
                  Pandas.index := [[]];
                  Pandas.rows := [["1"; "2"]] |});
         ("B", {| Pandas.columns := [Pandas.Name "p"; Pandas.Name "q"];
                  Pandas.index := [[]];
                  Pandas.rows := [["3"; "4"]] |})], w).
Proof. reflexivity. Qed.

(** The section name as the specification words it: the line without its
    first and its last character. *)
Fixpoint without_last (s : string) : string :=
  match s with
  | EmptyString => EmptyString
  | String c EmptyString => EmptyString
  | String c s' => String c (without_last s')
  end.

Definition without_first_and_last (line : string) : string :=
  match line with
  | EmptyString => EmptyString
  | String _ s => without_last s
  end.

(** The outcome of a header line: the state after the active section is
    finalized, with the new section [name] and an empty buffer. *)
Definition enter_section (st : parser_state) (name : string) (w : world)
    : result parser_state * world :=
  match _finalize_section (dfs st) (current_section st) (buffer st) w with
  | (Ok dfs', w') => (Ok (ParserState dfs' (Some name) EmptyString), w')
  | (Raise e, w') => (Raise e, w')
  end.

Lemma parse_line_header st line w :
  Py.startswith "[" (Py.strip line) = true →
  parse_line st line w
  = enter_section st (Py.strip_chars "[]" (Py.strip line)) w.
Proof.
  intros Hline. unfold parse_line, enter_section. rewrite Hline.
  unfold mbind, M_bind.
  by destruct (_finalize_section _ _ _ w) as [[dfs'|e] w'].
Qed.

(** C5, as amended.  A line that starts with a bracket once stripped makes
    the parser finalize the active section and, unless that raises, enter
    the section named by the line without its leading and trailing
    brackets, all of them: the name is what is left of the line between a
    prefix and a suffix of brackets, it has no bracket at either end, and
    for a line [[inner]] whose [inner] has no bracket at either end it is
    [inner]. *)
Theorem header_line_enters_section st line w :
  Py.startswith "[" (Py.strip line) = true →
  let name := Py.strip_chars "[]" (Py.strip line) in
  parse_line st line w = enter_section st name w
  ∧ (∃ pre post, Py.strip line = pre +:+ name +:+ post
       ∧ all_chars is_bracket pre = true ∧ all_chars is_bracket post = true)
  ∧ (∀ c, first_char name = Some c → is_bracket c = false)
  ∧ (∀ c, last_char name = Some c → is_bracket c = false)
  ∧ (∀ inner, Py.strip line = "[" +:+ inner +:+ "]" →
       (∀ c, first_char inner = Some c → is_bracket c = false) →
       (∀ c, last_char inner = Some c → is_bracket c = false) →
       name = inner).
Proof.
  intros Hline name.
  destruct (strip_by_spec is_bracket (Py.strip line))
    as (pre & post & Heq & Hpre & Hpost & Hfirst & Hlast).
  split_and!.
  - by apply parse_line_header.
  - by exists pre, post.
  - exact Hfirst.
  - exact Hlast.
  - intros inner Hinner ??. subst name. rewrite Hinner.
    by apply strip_chars_bracketed.
Qed.

Lemma header_line_enters_section_witness :
  let st := ParserState [] (Some "A") ("x" +:+ LF) in
  let w := World ∅ [] in
  parse_line st " [[B]] " w = enter_section st "B" w
  ∧ parse_line st "[C]" w = enter_section st "C" w.
Proof.
  split.
  - apply (header_line_enters_section _ " [[B]] "). reflexivity.
  - apply (header_line_enters_section _ "[C]"). reflexivity.
Defined.

(** C5 as stated fails: the header line [[[A]]] opens the section [A],
    while the line without its first and last character is [[A]]. *)
Lemma section_name_counterexample :
  ¬ (∀ st line w,
       Py.startswith "[" (Py.strip line) = true →
       parse_line st line w
       = enter_section st (without_first_and_last (Py.strip line)) w).
Proof.
  intros H.
  specialize (H (ParserState [] None EmptyString) "[[A]]" (World ∅ [])).
  by specialize (H eq_refl).
Qed.

Lemma dict_get_set_eq {V} k (v : V) d : dict_get k (dict_set k v d) = Some v.
Proof.
  induction d as [|[k' v'] d IH]; simpl.
  - by rewrite bool_decide_eq_true_2.
  - case_bool_decide; simpl; [by rewrite bool_decide_eq_true_2|].
    by rewrite bool_decide_eq_false_2.
Qed.

Lemma dict_get_set_ne {V} k k' (v : V) d :
  k ≠ k' → dict_get k' (dict_set k v d) = dict_get k' d.
Proof.
  intros Hne. induction d as [|[k'' v''] d IH]; simpl.
  - by rewrite bool_decide_eq_false_2.
  - case_bool_decide as Hk; simpl.
    + subst k''. by rewrite !bool_decide_eq_false_2.
    + by rewrite IH.
Qed.

Lemma truthy_name section :
  truthy section = true → section_name section ≠ EmptyString.
Proof. by destruct section as [[|??]|]. Qed.

Lemma finalize_falsy dfs section buffer w :
  truthy section = false → _finalize_section dfs section buffer w = (Ok dfs, w).
Proof. intros H. unfold _finalize_section. by rewrite H. Qed.

Lemma finalize_empty_buffer dfs section w :
  _finalize_section dfs section EmptyString w = (Ok dfs, w).
Proof. unfold _finalize_section. by rewrite orb_true_r. Qed.

(** What [_finalize_section] does with a section that has a name and a
    buffer that was written to: one call of [read_csv] decides. *)
Lemma finalize_active dfs section buffer w :
  truthy section = true → buffer ≠ EmptyString →
  _finalize_section dfs section buffer w =
    match
      Pandas.read_csv buffer
        (if bool_decide (section = Some "Heading")
         then Pandas.HeaderNone else Pandas.HeaderInfer)
    with
    | Ok df => (Ok (dict_set (section_name section) df dfs), w)
    | Raise e =>
        if bool_decide (exn_type e = EmptyDataError)
        then (Ok dfs,
              {| files := files w;
                 log := log w ++
                   [LogRecord WARNING
                      ("Empty section " +:+ section_name section
                       +:+ " in file")] |})
        else (Raise e, w)
    end.
Proof.
  intros Hsec Hbuf. unfold _finalize_section. rewrite Hsec.
  destruct buffer as [|c buffer]; [done|]. simpl negb. cbv iota.
  unfold_M. destruct (Pandas.read_csv _ _) as [df|[cls msg]]; [done|].
  unfold isinstance, issubclass. simpl.
  destruct cls; done.
Qed.

(** The empty string never becomes a key of the dictionary. *)
Lemma finalize_no_empty_key dfs section buffer w :
  dict_get EmptyString dfs = None →
  match (_finalize_section dfs section buffer w).1 with
  | Ok dfs' => dict_get EmptyString dfs' = None
  | Raise _ => True
  end.
Proof.
  intros Hdfs. destruct (truthy section) eqn:Hsec;
    [|by rewrite finalize_falsy].
  destruct (decide (buffer = EmptyString)) as [->|Hbuf];
    [by rewrite finalize_empty_buffer|].
  rewrite finalize_active by done.
  destruct (Pandas.read_csv _ _) as [df|e]; simpl.
  - rewrite dict_get_set_ne; [done|]. by apply truthy_name.
  - by case_bool_decide.
Qed.

Lemma parse_line_no_empty_key st line w :
  dict_get EmptyString (dfs st) = None →
  match (parse_line st line w).1 with
  | Ok st' => dict_get EmptyString (dfs st') = None
  | Raise _ => True
  end.
Proof.
  intros Hst. unfold parse_line.
  destruct (Py.startswith "[" (Py.strip line)).
  - pose proof (finalize_no_empty_key (dfs st) (current_section st)
                  (buffer st) w Hst) as H.
    unfold mbind, M_bind.
    by destruct (_finalize_section _ _ _ w) as [[dfs'|e] w'].
  - by destruct (truthy (current_section st)).
Qed.

Lemma parse_lines_no_empty_key lines st w :
  dict_get EmptyString (dfs st) = None →
  match (parse_lines st lines w).1 with
  | Ok st' => dict_get EmptyString (dfs st') = None
  | Raise _ => True
  end.
Proof.
  revert st w. induction lines as [|line lines IH]; intros st w Hst; [done|].
  simpl. unfold mbind, M_bind.
  pose proof (parse_line_no_empty_key st line w Hst) as H.
  destruct (parse_line st line w) as [[st'|e] w']; [|done].
  by apply IH.
Qed.

Lemma parse_text_no_empty_key text w :
  match (parse_text text w).1 with
  | Ok dfs => dict_get EmptyString dfs = None
  | Raise _ => True
  end.
Proof.
  unfold parse_text, mbind, M_bind.
  pose proof (parse_lines_no_empty_key (Py.file_lines text)
                (ParserState [] None EmptyString) w eq_refl) as H.
  destruct (parse_lines _ _ w) as [[st|e] w']; [|done].
  by apply finalize_no_empty_key.
Qed.

Lemma strip_chars_all_brackets line :
  all_chars is_bracket line = true → Py.strip_chars "[]" line = EmptyString.
Proof.
  intros H. unfold Py.strip_chars, Py.strip_by.
  by rewrite (lstrip_by_all is_bracket).
Qed.

(** Lines that are no header leave a state without active section as it
    is. *)
Lemma parse_lines_discard st content w :
  truthy (current_section st) = false →
  Forall (λ l, Py.startswith "[" (Py.strip l) = false) content →
  parse_lines st content w = (Ok st, w).
Proof.
  intros Hsec Hcontent. induction Hcontent as [|l content Hl _ IH]; [done|].
  simpl. unfold mbind, M_bind, parse_line. by rewrite Hl, Hsec.
Qed.

(** C9.  A header line made of brackets only gives the empty section
    name; the parser then has no active section: the content lines that
    follow, up to the next header line, leave its state (tables, section,
    empty buffer) and the world unchanged; and whatever the text, no table
    of the output is named by the empty string. *)
Theorem empty_section_name_is_no_section :
  (∀ st header w st' w' content,
     Py.startswith "[" (Py.strip header) = true →
     all_chars is_bracket (Py.strip header) = true →
     parse_line st header w = (Ok st', w') →
     Forall (λ l, Py.startswith "[" (Py.strip l) = false) content →
     current_section st' = Some EmptyString
     ∧ buffer st' = EmptyString
     ∧ parse_lines st' content w' = (Ok st', w'))
  ∧ (∀ text w,
       match (parse_text text w).1 with
       | Ok dfs => dict_get EmptyString dfs = None
       | Raise _ => True
       end).
Proof.
  split; [|apply parse_text_no_empty_key].
  intros st header w st' w' content Hhdr Hall Hline Hcontent.
  rewrite parse_line_header, strip_chars_all_brackets in Hline by done.
  unfold enter_section in Hline.
  destruct (_finalize_section _ _ _ w) as [[dfs'|e] w'']; [|done].
  injection Hline as <- <-. split_and!; [done..|].
  by apply parse_lines_discard.
Qed.

Lemma empty_section_name_is_no_section_witness :
  let st := ParserState [] (Some "A") EmptyString in
  let w := World ∅ [] in
  let st' := ParserState [] (Some EmptyString) EmptyString in
  current_section st' = Some EmptyString
  ∧ buffer st' = EmptyString
  ∧ parse_lines st' ["lost"; "x" +:+ TAB +:+ "y"] w = (Ok st', w).
Proof.
  intros st w st'.
  apply (proj1 empty_section_name_is_no_section st "[]" w st' w).
  - reflexivity.
  - reflexivity.
  - reflexivity.
  - repeat constructor.
Defined.

(** ** The table materializer *)








Definition heading_buffer : string :=
  "foo" +:+ TAB +:+ "bar" +:+ LF +:+ "1" +:+ TAB +:+ "2" +:+ LF.

(** The section [Heading] with the rows [foo\tbar] and [1\t2]: both are
    data rows, under the columns 0 and 1. *)
Lemma heading_rows_are_data (w : world) :
  _finalize_section [] (Some "Heading") heading_buffer w =
    (Ok [("Heading",
          {| Pandas.columns := [Pandas.Pos 0; Pandas.Pos 1];
             Pandas.index := [[]; []];
             Pandas.rows := [["foo"; "bar"]; ["1"; "2"]] |})], w).
Proof. reflexivity. Qed.






Definition header_only_buffer : string := "x" +:+ TAB +:+ "y" +:+ LF.


(** What the code does with that buffer. *)
Lemma header_only_section_stored (w : world) :
  _finalize_section [] (Some "A") header_only_buffer w
  = (Ok [("A", {| Pandas.columns := [Pandas.Name "x"; Pandas.Name "y"];
                  Pandas.index := []; Pandas.rows := [] |})], w).
Proof. reflexivity. Qed.

(** ** The column pruner *)

(** Every row has a cell for every column. *)
Definition rectangular (df : Pandas.DataFrame) : Prop :=
  Forall (λ row, length row = length (Pandas.columns df)) (Pandas.rows df).

(** The cell of [row] under the first column labelled [c]. *)
Fixpoint lookup_cell (cols : list Pandas.label) (row : list string)
    (c : Pandas.label) : option string :=
  match cols, row with
  | c' :: cols', x :: row' =>
      if bool_decide (c' = c) then Some x else lookup_cell cols' row' c
  | _, _ => None
  end.

(** [df.iloc[i][c]]: the cell of row [i] under column [c]. *)
Definition cell (df : Pandas.DataFrame) (i : nat) (c : Pandas.label)
    : option string :=
  Pandas.rows df !! i ≫= λ row, lookup_cell (Pandas.columns df) row c.

Definition deny_list : list Pandas.label := Pandas.Name <$> columns_to_drop.

Definition existing_columns (df : Pandas.DataFrame) : list Pandas.label :=
  Pandas.Name
    <$> filter (λ col, Pandas.Name col ∈ Pandas.columns df) columns_to_drop.

Lemma existing_columns_spec df c :
  c ∈ existing_columns df ↔ c ∈ deny_list ∧ c ∈ Pandas.columns df.
Proof.
  unfold existing_columns, deny_list. rewrite !list_elem_of_fmap. split.
  - intros (col & -> & [Hin Hcol]%list_elem_of_filter). eauto.
  - intros [(col & -> & Hcol) Hin]. exists col. split; [done|].
    by apply list_elem_of_filter.
Qed.

Lemma drop_cells_ext labels labels' cols row :
  (∀ c, c ∈ cols → c ∈ labels ↔ c ∈ labels') →
  Pandas.drop_cells labels cols row = Pandas.drop_cells labels' cols row.
Proof.
  revert row. induction cols as [|c cols IH]; intros row Hext; [done|].
  destruct row as [|x row]; [done|]. simpl.
  rewrite IH by (intros; apply Hext; by right).
  assert (c ∈ labels ↔ c ∈ labels') as Hc by (apply Hext; by left).
  by repeat case_bool_decide; try tauto.
Qed.

Lemma drop_cells_none labels cols row :
  (∀ c, c ∈ cols → c ∉ labels) → length row = length cols →
  Pandas.drop_cells labels cols row = row.
Proof.
  revert row. induction cols as [|c cols IH]; intros [|x row] Hnone Hlen;
    simplify_eq/=; [done|].
  rewrite bool_decide_eq_false_2 by (apply Hnone; by left).
  f_equal. apply IH; [|done]. intros; apply Hnone; by right.
Qed.

Lemma filter_all {A} (P : A → Prop) `{∀ x, Decision (P x)} (l : list A) :
  (∀ x, x ∈ l → P x) → filter P l = l.
Proof.
  induction l as [|x l IH]; intros Hall; [done|].
  rewrite filter_cons_True by (apply Hall; by left).
  f_equal. apply IH. intros; apply Hall; by right.
Qed.

Lemma filter_elem_ext {A} (P Q : A → Prop) `{∀ x, Decision (P x)}
    `{∀ x, Decision (Q x)} (l : list A) :
  (∀ x, x ∈ l → P x ↔ Q x) → filter P l = filter Q l.
Proof.
  induction l as [|x l IH]; intros Hext; [done|].
  assert (P x ↔ Q x) as Hx by (apply Hext; by left).
  rewrite !filter_cons, IH by (intros; apply Hext; by right).
  by repeat case_decide; try tauto.
Qed.

Lemma DataFrame_ext (a b : Pandas.DataFrame) :
  Pandas.columns a = Pandas.columns b →
  Pandas.index a = Pandas.index b →
  Pandas.rows a = Pandas.rows b →
  a = b.
Proof. destruct a, b. simpl. congruence. Qed.

Lemma prune_columns df :
  Pandas.columns (prune df)
  = filter (λ c, c ∉ deny_list) (Pandas.columns df).
Proof.
  unfold prune. simpl. fold (existing_columns df).
  apply filter_elem_ext. intros c Hc.
  rewrite existing_columns_spec. tauto.
Qed.

Lemma prune_rows df :
  Pandas.rows (prune df)
  = Pandas.drop_cells deny_list (Pandas.columns df) <$> Pandas.rows df.
Proof.
  unfold prune. simpl. fold (existing_columns df).
  apply list_fmap_ext. intros _ row _. apply drop_cells_ext.
  intros c Hc. rewrite existing_columns_spec. tauto.
Qed.

Definition probes_sample : Pandas.DataFrame :=
  {| Pandas.columns :=
       [Pandas.Name "ID"; Pandas.Name "Definition";
        Pandas.Name "Probe_Sequence"; Pandas.Name "Gene"];
     Pandas.index := [[]; []];
     Pandas.rows := [["1"; "d1"; "ACGT"; "g1"]; ["2"; "d2"; "TTGA"; "g2"]] |}.

Definition probes_sample_pruned : Pandas.DataFrame :=
  {| Pandas.columns := [Pandas.Name "ID"; Pandas.Name "Gene"];
     Pandas.index := [[]; []];
     Pandas.rows := [["1"; "g1"]; ["2"; "g2"]] |}.

(** C7.  [prune] returns the table without the columns of the deny-list:
    the columns left are those not on the list, every row loses the cells
    under the listed columns, the row index is kept.  It is a total
    function: a listed column that the table lacks is ignored.  A table
    with the columns ID, Definition, Probe_Sequence, Gene reduces to ID,
    Gene, and a table without listed column is returned unchanged. *)
Theorem prune_drops_deny_list df :
  Pandas.columns (prune df) = filter (λ c, c ∉ deny_list) (Pandas.columns df)
  ∧ Pandas.rows (prune df)
    = Pandas.drop_cells deny_list (Pandas.columns df) <$> Pandas.rows df
  ∧ Pandas.index (prune df) = Pandas.index df
  ∧ (∀ c, c ∈ Pandas.columns (prune df)
          ↔ c ∈ Pandas.columns df ∧ c ∉ deny_list)
  ∧ (rectangular df → (∀ c, c ∈ Pandas.columns df → c ∉ deny_list) →
     prune df = df)
  ∧ prune probes_sample = probes_sample_pruned.
Proof.
  split_and!.
  - apply prune_columns.
  - apply prune_rows.
  - done.
  - intros c. rewrite prune_columns, list_elem_of_filter. tauto.
  - intros Hrect Hnone.
    pose proof (prune_columns df) as Hcols.
    pose proof (prune_rows df) as Hrows.
    rewrite filter_all in Hcols by done.
    assert (Pandas.rows (prune df) = Pandas.rows df) as Hrows'.
    { rewrite Hrows. rewrite <- (list_fmap_id (Pandas.rows df)) at 2.
      apply list_fmap_ext. intros i row Hrow.
      apply drop_cells_none; [done|].
      eapply Forall_lookup_1 in Hrect; [exact Hrect|exact Hrow]. }
    by apply DataFrame_ext.
  - reflexivity.
Qed.

Definition plain_table : Pandas.DataFrame :=
  {| Pandas.columns := [Pandas.Name "ID"; Pandas.Name "Gene"];
     Pandas.index := [[]];
     Pandas.rows := [["1"; "g1"]] |}.

Lemma prune_drops_deny_list_witness : prune plain_table = plain_table.
Proof.
  apply (prune_drops_deny_list plain_table).
  - by repeat constructor.
  - apply Forall_forall. repeat constructor; by apply (bool_decide_unpack _).
Defined.

Lemma lookup_cell_drop labels cols row c :
  c ∉ labels →
  lookup_cell (filter (λ c', c' ∉ labels) cols)
    (Pandas.drop_cells labels cols row) c
  = lookup_cell cols row c.
Proof.
  intros Hc. revert row. induction cols as [|c' cols IH]; intros row; [done|].
  destruct row as [|x row].
  - cbn [Pandas.drop_cells lookup_cell].
    by destruct (filter _ (c' :: cols)).
  - cbn [Pandas.drop_cells lookup_cell]. rewrite filter_cons. case_bool_decide as Hc'.
    + rewrite decide_False by tauto.
      rewrite bool_decide_eq_false_2 by (by intros ->). apply IH.
    + rewrite decide_True by done. simpl. by rewrite IH.
Qed.

(** C10.  [prune] changes only which columns are present: the rows are as
    many and in the same order (row [i] of the result is row [i] of the
    input without the dropped cells), the row index is kept, the columns
    left stand in their order of the input, and every cell under a column
    that is left is the cell of the input. *)
Theorem prune_frame df :
  length (Pandas.rows (prune df)) = length (Pandas.rows df)
  ∧ Pandas.index (prune df) = Pandas.index df
  ∧ (∀ i, Pandas.rows (prune df) !! i
          = Pandas.drop_cells deny_list (Pandas.columns df)
              <$> Pandas.rows df !! i)
  ∧ sublist (Pandas.columns (prune df)) (Pandas.columns df)
  ∧ (∀ i c, c ∈ Pandas.columns (prune df) → cell (prune df) i c = cell df i c).
Proof.
  split_and!.
  - by rewrite prune_rows, length_fmap.
  - done.
  - intros i. by rewrite prune_rows, list_lookup_fmap.
  - rewrite prune_columns. apply sublist_filter.
  - intros i c Hc. unfold cell.
    rewrite prune_columns in Hc. apply list_elem_of_filter in Hc as [Hc _].
    rewrite prune_rows, prune_columns, list_lookup_fmap.
    destruct (Pandas.rows df !! i) as [row|]; [|done]. simpl.
    by apply lookup_cell_drop.
Qed.

Lemma prune_frame_witness :
  cell (prune probes_sample) 1 (Pandas.Name "Gene")
  = cell probes_sample 1 (Pandas.Name "Gene")
  ∧ cell probes_sample 1 (Pandas.Name "Gene") = Some "g2".
Proof.
  split; [|reflexivity].
  apply (prune_frame probes_sample). by apply (bool_decide_unpack _).
Defined.

(** ** A program logic for the computations *)

(** [hoare P m Q]: from a world where [P] holds, [m] ends, with a value or
    an exception, in a world where [Q] holds of the outcome. *)
Definition hoare {A} (P : world → Prop) (m : M A)
    (Q : result A → world → Prop) : Prop :=
  ∀ w, P w → Q (m w).1 (m w).2.

(** [keeps I m]: [m] preserves [I], whether it returns or raises. *)
Definition keeps {A} (I : world → Prop) (m : M A) : Prop :=
  hoare I m (λ _ w, I w).

Section Logic.
Context {A B : Type}.
Implicit Types (P I : world → Prop).

Lemma hoare_conseq P P' (Q Q' : result A → world → Prop) (m : M A) :
  (∀ w, P' w → P w) → (∀ r w, Q r w → Q' r w) →
  hoare P m Q → hoare P' m Q'.
Proof. unfold hoare. eauto. Qed.

Lemma hoare_ret P (Q : result A → world → Prop) (a : A) :
  (∀ w, P w → Q (Ok a) w) → hoare P (mret a) Q.
Proof. unfold hoare. eauto. Qed.

Lemma hoare_lift P (Q : result A → world → Prop) (r : result A) :
  (∀ w, P w → Q r w) → hoare P (lift r) Q.
Proof. unfold hoare. eauto. Qed.

Lemma hoare_bind P (R : A → world → Prop) (Q : result B → world → Prop)
    (m : M A) (k : A → M B) :
  hoare P m (λ r w, match r with Ok a => R a w | Raise e => Q (Raise e) w end) →
  (∀ a, hoare (R a) (k a) Q) →
  hoare P (m ≫= k) Q.
Proof.
  intros Hm Hk w Hw. specialize (Hm w Hw). unfold mbind, M_bind.
  destruct (m w) as [[a|e] w']; simpl in *; [|done]. by apply Hk.
Qed.

Lemma hoare_get_files P (Q : result B → world → Prop)
    (k : gmap (list string) node → M B) :
  (∀ σ, hoare (λ w, P w ∧ files w = σ) (k σ) Q) →
  hoare P (get_files ≫= k) Q.
Proof. intros Hk w Hw. by apply (Hk (files w)). Qed.

Lemma hoare_handle (R : world → Prop) (Q : result A → world → Prop)
    (clauses : list (list exn_class * (exn → M A))) (e : exn) :
  (∀ w, R w → Q (Raise e) w) →
  Forall (λ clause, isinstance e clause.1 = true → hoare R (clause.2 e) Q)
    clauses →
  hoare R (handle clauses e) Q.
Proof.
  intros Hraise Hclauses.
  induction Hclauses as [|[cs h] clauses Hh _ IH]; simpl.
  - intros w Hw. by apply Hraise.
  - simpl in Hh. destruct (isinstance e cs); [by apply Hh|exact IH].
Qed.

Lemma hoare_try_except P (R : exn → world → Prop)
    (Q : result A → world → Prop) (body : M A)
    (clauses : list (list exn_class * (exn → M A))) :
  hoare P body (λ r w, match r with Ok a => Q (Ok a) w | Raise e => R e w end) →
  (∀ e, hoare (R e) (handle clauses e) Q) →
  hoare P (try_except body clauses) Q.
Proof.
  intros Hbody Hh w Hw. specialize (Hbody w Hw). unfold try_except.
  destruct (body w) as [[a|e] w']; simpl in *; [done|]. by apply Hh.
Qed.

Lemma keeps_ret I (a : A) : keeps I (mret a).
Proof. by apply hoare_ret. Qed.

Lemma keeps_raise I (e : exn) : keeps I (raise e : M A).
Proof. by intros w Hw. Qed.

Lemma keeps_lift I (r : result A) : keeps I (lift r).
Proof. by apply hoare_lift. Qed.

Lemma keeps_bind I (m : M A) (k : A → M B) :
  keeps I m → (∀ a, keeps I (k a)) → keeps I (m ≫= k).
Proof.
  intros Hm Hk. eapply hoare_bind; [|exact Hk].
  eapply hoare_conseq; [| |exact Hm]; [done|]. by intros [].
Qed.

Lemma keeps_read_files I : keeps I get_files.
Proof. by intros w Hw. Qed.

(** The files read from the world are those of a world where the
    invariant holds. *)
Lemma keeps_get_files I (k : gmap (list string) node → M B) :
  (∀ σ, (∃ w, I w ∧ files w = σ) → keeps I (k σ)) →
  keeps I (get_files ≫= k).
Proof.
  intros Hk w Hw. change ((get_files ≫= k) w) with (k (files w) w).
  apply (Hk (files w)); [|done]. by exists w.
Qed.

Lemma keeps_try_except I (body : M A)
    (clauses : list (list exn_class * (exn → M A))) :
  keeps I body →
  Forall (λ clause, ∀ e, keeps I (clause.2 e)) clauses →
  keeps I (try_except body clauses).
Proof.
  intros Hbody Hclauses.
  apply (hoare_try_except _ (λ _ w, I w)).
  - eapply hoare_conseq; [| |exact Hbody]; [done|]. by intros [].
  - intros e. apply hoare_handle; [done|].
    eapply Forall_impl; [exact Hclauses|]. intros clause H _. apply H.
Qed.

End Logic.

Lemma keeps_for_each {A} (I : world → Prop) (xs : list A)
    (body : A → M unit) :
  (∀ x, x ∈ xs → keeps I (body x)) → keeps I (for_each xs body).
Proof.
  induction xs as [|x xs IH]; intros Hbody; simpl.
  - apply keeps_ret.
  - apply keeps_bind; [apply Hbody; by left|].
    intros _. apply IH. intros; apply Hbody; by right.
Qed.

Lemma keeps_logger (I : world → Prop) lvl msg :
  (∀ w l, I w → I {| files := files w; log := l |}) →
  keeps I (logger lvl msg).
Proof. intros H w Hw. by apply H. Qed.

(** ** Invariants of the files *)

(** A property of the files, as a property of the world. *)
Definition on_files (I : gmap (list string) node → Prop) (w : world) : Prop :=
  I (files w).

(** One goal for each [except] clause. *)
Ltac each_clause :=
  repeat first [apply List.Forall_nil | apply List.Forall_cons].

(** A handler that looks at the files and returns or raises again. *)
Ltac keeps_check :=
  apply keeps_bind;
  [apply keeps_read_files
  |intros ?; simpl; try case_match; (apply keeps_ret || apply keeps_raise)].

Section Files_invariant.
Context (I : gmap (list string) node → Prop).

(** The invariant survives a new or a changed entry at [p]. *)
Definition may_insert (p : list string) : Prop :=
  ∀ σ n, I σ → I (<[p := n]> σ).

(** The invariant survives the removal of the entry [n] at [p]. *)
Definition may_delete (p : list string) (n : node) : Prop :=
  ∀ σ, I σ → σ !! p = Some n → I (delete p σ).

Lemma logger_inv lvl msg : keeps (on_files I) (logger lvl msg).
Proof. by intros w Hw. Qed.

Lemma os_mkdir_inv p :
  (p ≠ [] → may_insert p) → keeps (on_files I) (FS.os_mkdir p).
Proof.
  intros Hp w Hw. unfold FS.os_mkdir. unfold_M.
  destruct (FS.parent_error (files w) p); [done|].
  destruct (FS.exists_ (files w) p) eqn:Hex; [done|].
  apply Hp; [by intros ->|done].
Qed.

Lemma mkdir_inv p : (p ≠ [] → may_insert p) → keeps (on_files I) (FS.mkdir p).
Proof.
  intros Hp. apply keeps_try_except; [by apply os_mkdir_inv|].
  each_clause; cbn [fst snd]; intros e.
  - apply keeps_raise.
  - keeps_check.
Qed.

Lemma mkdir_parents_rev_inv rp :
  (∀ q, q ≠ [] → q `prefix_of` reverse rp → may_insert q) →
  keeps (on_files I) (FS.mkdir_parents_rev rp).
Proof.
  induction rp as [|n rp IH]; intros Hp; cbn [FS.mkdir_parents_rev].
  - apply keeps_try_except; [by apply os_mkdir_inv|].
    each_clause; cbn [fst snd]; intros e.
    + apply keeps_raise.
    + keeps_check.
  - apply keeps_try_except; [apply os_mkdir_inv; intros ?; by apply Hp|].
    each_clause; cbn [fst snd]; intros e.
    + apply keeps_bind.
      * apply IH. intros q Hq Hpre. apply Hp; [done|].
        rewrite reverse_cons. by apply prefix_app_r.
      * intros _. apply mkdir_inv. intros ?. by apply Hp.
    + keeps_check.
Qed.

Lemma mkdir_parents_inv p :
  (∀ q, q ≠ [] → q `prefix_of` p → may_insert q) →
  keeps (on_files I) (FS.mkdir_parents p).
Proof.
  intros Hp. apply mkdir_parents_rev_inv. by rewrite reverse_involutive.
Qed.

Lemma write_file_inv p data :
  may_insert p → keeps (on_files I) (FS.write_file p data).
Proof.
  intros Hp w Hw. unfold FS.write_file. unfold_M.
  destruct (FS.parent_error (files w) p); [done|].
  destruct (FS.is_dir (files w) p); [done|]. by apply Hp.
Qed.

Lemma read_file_inv p : keeps (on_files I) (FS.read_file p).
Proof.
  intros w Hw. unfold FS.read_file. unfold_M.
  destruct p as [|c p]; [done|].
  by destruct (files w !! (c :: p)) as [[]|].
Qed.

Lemma unlink_inv p :
  (∀ data, may_delete p (File data)) → keeps (on_files I) (FS.unlink p).
Proof.
  intros Hp w Hw. unfold FS.unlink. unfold_M.
  destruct p as [|c p]; [by destruct (files w !! [])|].
  destruct (files w !! (c :: p)) as [[data|]|] eqn:Hfile; [|done..].
  by apply (Hp data).
Qed.

Lemma rmdir_inv p : may_delete p Dir → keeps (on_files I) (FS.rmdir p).
Proof.
  intros Hp w Hw. unfold FS.rmdir. unfold_M.
  destruct p as [|c p]; [by destruct (files w !! [])|].
  destruct (files w !! (c :: p)) as [[data|]|] eqn:Hfile; [done| |done].
  destruct (FS.scandir (files w) (c :: p)); [|done].
  by apply Hp.
Qed.

Lemma raise_if_any_inv e : keeps (on_files I) (raise_if_any e).
Proof. destruct e; [apply keeps_raise|apply keeps_ret]. Qed.

End Files_invariant.


(** One step of a proof that a computation keeps an invariant of the
    files: the computations that write nothing, then sequence and [try]. *)
Ltac keeps_step :=
  first
    [ apply keeps_ret | apply keeps_raise | apply keeps_lift
    | apply logger_inv | apply read_file_inv | apply keeps_read_files
    | apply raise_if_any_inv
    | apply keeps_bind; [|intros ?]
    | apply keeps_try_except; [|each_clause; cbn [fst snd]; intros ?] ].

(** The parser writes no file. *)
Section Parser_invariant.
Context (I : gmap (list string) node → Prop).





End Parser_invariant.

(** ** Paths that a computation leaves alone *)



Section Frame.
Context (Prot : list string → Prop) (σ0 : gmap (list string) node).









End Frame.

(** ** Listings *)

Lemma scandir_elem σ d x :
  x ∈ FS.scandir σ d →
  x = d ++ [FS.name x] ∧ is_Some (σ !! x) ∧ FS.is_dir σ d = true.
Proof.
  unfold FS.scandir. destruct (FS.is_dir σ d); [|by intros ?%elem_of_nil].
  intros [[Hne Hpar] Hin]%list_elem_of_filter.
  apply list_elem_of_fmap in Hin as ([x' n] & -> & Hin).
  apply elem_of_map_to_list in Hin. simpl in *. split_and!; [|by eexists|done].
  rewrite <- Hpar. unfold FS.parent, FS.name.
  by apply app_removelast_last.
Qed.

Lemma keeps_glob_for (I : world → Prop) matches d body :
  (∀ σ x, (∃ w, I w ∧ files w = σ) → x ∈ FS.scandir σ d →
          matches (FS.name x) = true → keeps I (body x)) →
  keeps I (FS.glob_for matches d body).
Proof.
  intros Hbody. apply keeps_get_files. intros σ Hσ.
  apply keeps_for_each. intros x [Hm Hx]%list_elem_of_filter.
  apply (Hbody σ); [done..|]. by destruct (matches (FS.name x)).
Qed.

(** The rule of the recursive walk: [Walked] holds of the directory the
    walk starts from and of every directory it descends into. *)
Lemma keeps_rglob_walk (I : world → Prop) (Walked : list string → Prop)
    matches body :
  (∀ σ d x, (∃ w, I w ∧ files w = σ) → Walked d → x ∈ FS.scandir σ d →
            matches (FS.name x) = true → keeps I (body x)) →
  (∀ σ d x, (∃ w, I w ∧ files w = σ) → Walked d → x ∈ FS.scandir σ d →
            FS.is_dir σ x = true → Walked x) →
  ∀ depth d, Walked d → keeps I (FS.rglob_walk depth matches d body).
Proof.
  intros Hbody Hdown depth.
  induction depth as [|depth IH]; intros d Hd; simpl.
  - apply keeps_ret.
  - apply keeps_bind.
    + apply keeps_glob_for. intros σ x Hσ Hx Hm. by apply (Hbody σ d).
    + intros _. apply keeps_get_files. intros σ Hσ.
      apply keeps_for_each. intros x [Hdir Hx]%list_elem_of_filter.
      apply IH. apply (Hdown σ d); [done..|]. by destruct (FS.is_dir σ x).
Qed.


(** ** The depth of the recursive walk *)

(** No entry at or below [root] lies deeper than [L]. *)
Definition no_deeper (root : list string) (L : nat)
    (σ : gmap (list string) node) : Prop :=
  ∀ p, root `prefix_of` p → is_Some (σ !! p) → length p ≤ L.

Lemma max_depth_ge σ p : is_Some (σ !! p) → length p ≤ FS.max_depth σ.
Proof.
  intros [n Hn]. apply max_list_elem_of_le, list_elem_of_fmap.
  exists p. split; [done|]. apply list_elem_of_fmap.
  exists (p, n). split; [done|]. by apply elem_of_map_to_list.
Qed.

Lemma no_deeper_insert root L p :
  ¬ root `prefix_of` p → may_insert (no_deeper root L) p.
Proof.
  intros Hp σ n Hσ q Hq Hsome. apply Hσ; [done|].
  rewrite lookup_insert_ne in Hsome; [done|]. by intros ->.
Qed.

Lemma no_deeper_delete root L p n : may_delete (no_deeper root L) p n.
Proof.
  intros σ Hσ _ q Hq Hsome. apply Hσ; [done|].
  destruct (decide (p = q)) as [->|Hne].
  - rewrite lookup_delete_eq in Hsome. by destruct Hsome.
  - by rewrite lookup_delete_ne in Hsome.
Qed.

(** A directory at the depth bound has no entries. *)
Lemma scandir_at_bound root L σ d :
  no_deeper root L σ → root `prefix_of` d → L ≤ length d →
  FS.scandir σ d = [].
Proof.
  intros Hσ Hd HL. destruct (FS.scandir σ d) as [|x xs] eqn:Hscan; [done|].
  assert (x ∈ FS.scandir σ d) as Hx by (rewrite Hscan; by left).
  apply scandir_elem in Hx as (Hx & Hsome & _).
  assert (length x ≤ L) as Hlen.
  { apply Hσ; [|done]. rewrite Hx. by apply prefix_app_r. }
  rewrite Hx, length_app in Hlen. simpl in Hlen. lia.
Qed.

Lemma rglob_walk_nothing depth matches d body w :
  FS.scandir (files w) d = [] →
  FS.rglob_walk depth matches d body w = (Ok tt, w).
Proof.
  intros Hscan. destruct depth as [|depth]; [done|].
  cbn [FS.rglob_walk]. unfold FS.glob_for. unfold_M.
  rewrite Hscan. simpl. by rewrite Hscan.
Qed.

(** Two loop bodies that agree where the invariant holds give the same
    loop. *)
Lemma for_each_ext {A} (J : world → Prop) (xs : list A)
    (f g : A → M unit) :
  (∀ x, x ∈ xs → ∀ w, J w → f x w = g x w) →
  (∀ x, x ∈ xs → keeps J (f x)) →
  ∀ w, J w → for_each xs f w = for_each xs g w.
Proof.
  induction xs as [|x xs IH]; intros Hfg Hkeeps w Hw; [done|].
  simpl. unfold mbind, M_bind.
  rewrite <- (Hfg x) by (done || by left).
  pose proof (Hkeeps x ltac:(by left) w Hw) as Hw'.
  destruct (f x w) as [[[]|e] w']; [|done]. simpl in Hw'.
  apply IH; [| |done].
  - intros y Hy. apply Hfg. by right.
  - intros y Hy. apply Hkeeps. by right.
Qed.

(** Beyond the depth of the deepest entry, more depth changes nothing:
    for a loop body that adds no entry below [root], the walk from a
    directory [d] with any two depths that reach beyond [L] is the same
    computation. *)
Lemma rglob_walk_depth_enough root L matches body :
  (∀ x, keeps (on_files (no_deeper root L)) (body x)) →
  ∀ n m d w,
    root `prefix_of` d → on_files (no_deeper root L) w →
    L < length d + n → L < length d + m →
    FS.rglob_walk n matches d body w = FS.rglob_walk m matches d body w.
Proof.
  intros Hbody. induction n as [|n IH]; intros m d w Hd Hw Hn Hm.
  { rewrite !rglob_walk_nothing; [done|..];
      apply (scandir_at_bound root L); (done || lia). }
  destruct m as [|m].
  { rewrite !rglob_walk_nothing; [done|..];
      apply (scandir_at_bound root L); (done || lia). }
  cbn [FS.rglob_walk]. unfold mbind at 1 3, M_bind at 1 3.
  pose proof (keeps_glob_for (on_files (no_deeper root L)) matches d body
                (λ _ x _ _ _, Hbody x) w Hw) as Hw1.
  destruct (FS.glob_for matches d body w) as [[[]|e] w1]; [|done].
  simpl in Hw1. change ((get_files ≫= ?k) w1) with (k (files w1) w1).
  apply (for_each_ext (on_files (no_deeper root L))); [| |done].
  - intros sub [_ Hsub]%list_elem_of_filter w' Hw'.
    apply scandir_elem in Hsub as (Hsub & _ & _).
    assert (length sub = S (length d)) as Hlen.
    { rewrite Hsub, length_app. simpl. lia. }
    apply IH; [|done|lia..]. rewrite Hsub. by apply prefix_app_r.
  - intros sub _.
    by apply (keeps_rglob_walk _ (λ _, True)); [intros; apply Hbody|..].
Qed.

(** The depth [rglob_for] allows is enough for such a loop body: with
    any more depth the loop is the same. *)
Lemma rglob_for_depth_enough root matches body extra w :
  (∀ L x, keeps (on_files (no_deeper root L)) (body x)) →
  FS.rglob_walk (S (FS.max_depth (files w)) + extra) matches root body w
  = FS.rglob_for matches root body w.
Proof.
  intros Hbody. unfold FS.rglob_for.
  change ((get_files ≫= ?k) w) with (k (files w) w).
  apply (rglob_walk_depth_enough root (FS.max_depth (files w)));
    [apply Hbody|done| |lia..].
  intros p _. apply max_depth_ge.
Qed.

(** ** The walks of Trim and Cleanup go deep enough *)

Lemma unlink_if_exists_no_deeper root L x :
  keeps (on_files (no_deeper root L)) (unlink_if_exists x).
Proof.
  unfold unlink_if_exists. keeps_step; [|keeps_step].
  apply unlink_inv. intros data. apply no_deeper_delete.
Qed.

Lemma remove_if_empty_no_deeper root L x :
  keeps (on_files (no_deeper root L)) (remove_if_empty x).
Proof.
  unfold remove_if_empty. keeps_step; [keeps_step|].
  case_match; [|keeps_step]. keeps_step; [|keeps_step].
  apply rmdir_inv, no_deeper_delete.
Qed.

Lemma trim_probes_file_no_deeper D L x :
  keeps (on_files (no_deeper ["data"; "processed"; D] L))
    (trim_probes_file ["data"; "processed"; D] ["data"; "trimmed"; D] x).
Proof.
  unfold trim_probes_file, _process_probes_file. cbn zeta. keeps_step.
  - apply mkdir_parents_inv. intros q _ Hpre. apply no_deeper_insert.
    intros Hroot. destruct (transitivity Hroot Hpre) as [k Hk].
    simplify_eq/=.
  - keeps_step; [|keeps_step].
    keeps_step; [keeps_step|]. keeps_step; [keeps_step|].
    apply write_file_inv, no_deeper_insert. intros [k Hk]. simplify_eq/=.
Qed.

(** The three recursive loops of the pipeline add no entry below the
    directory they walk, so the depth that [rglob_for] allows them is
    enough: with any more depth they are the same computations. *)
Lemma pipeline_walks_depth_enough D extra w :
  let processed_dir := ["data"; "processed"; D] in
  let depth := S (FS.max_depth (files w)) + extra in
  FS.rglob_walk depth (String.eqb "Probes.tsv") processed_dir
    (trim_probes_file processed_dir ["data"; "trimmed"; D]) w
  = FS.rglob_for (String.eqb "Probes.tsv") processed_dir
      (trim_probes_file processed_dir ["data"; "trimmed"; D]) w
  ∧ FS.rglob_walk depth (Py.endswith ".txt") processed_dir unlink_if_exists w
    = FS.rglob_for (Py.endswith ".txt") processed_dir unlink_if_exists w
  ∧ FS.rglob_walk depth (λ _, true) processed_dir remove_if_empty w
    = FS.rglob_for (λ _, true) processed_dir remove_if_empty w.
Proof.
  intros processed_dir depth. split_and!;
    apply (rglob_for_depth_enough processed_dir); intros L x.
  - apply trim_probes_file_no_deeper.
  - apply unlink_if_exists_no_deeper.
  - apply remove_if_empty_no_deeper.
Qed.

(** ** Completion markers *)








Section Task_frames.
Context (wget_download : string → result string).
Context (tar_members : string → list (list string * node) * option exn).
Context (gzip_read : string → string * option exn).
Context (D : string) (σ0 : gmap (list string) node).

(** *** Process *)






(** *** Extract *)





(** *** Trim *)






(** *** Cleanup *)







(** *** The marker of the task that runs *)












End Task_frames.

(** ** The marker of a task tells whether the task completed *)



Section Markers.
Context (wget_download : string → result string).
Context (tar_members : string → list (list string * node) * option exn).
Context (gzip_read : string → string * option exn).







End Markers.

(** * Runs on sample inputs *)


Definition stored_gzip (bytes : string) : string * option exn :=
  if Py.startswith "gz:" bytes
  then (String.substring 3 (String.length bytes - 3) bytes, None)
  else (EmptyString, Some (Exn BadGzipFile "Not a gzipped file")).






(** ** The Process stage on a file pandas rejects *)

(** A section whose second data row has a field too many. *)
Definition ragged_text : string :=
  "[A]" +:+ LF +:+ "x" +:+ TAB +:+ "y" +:+ LF +:+ "1" +:+ TAB +:+ "2" +:+ LF
  +:+ "3" +:+ TAB +:+ "4" +:+ TAB +:+ "5" +:+ LF.

Definition extracted_dirs : list (list string * node) :=
  [(["data"], Dir); (["data"; "extracted"], Dir);
   (["data"; "extracted"; "GSE1"], Dir);
   (["data"; "extracted"; "GSE1"; "_unpacked"], File "done")].

(** Three extracted files, the second of which pandas rejects. *)
Definition ragged_world : world :=
  World (list_to_map (extracted_dirs ++
    [(["data"; "extracted"; "GSE1"; "a.gz"], File ("gz:" +:+ sample_text));
     (["data"; "extracted"; "GSE1"; "b.gz"], File ("gz:" +:+ ragged_text));
     (["data"; "extracted"; "GSE1"; "c.gz"], File ("gz:" +:+ sample_text))]))
    [].

(** Three extracted files, the second of which is no gzip file. *)
Definition corrupt_world : world :=
  World (list_to_map (extracted_dirs ++
    [(["data"; "extracted"; "GSE1"; "a.gz"], File ("gz:" +:+ sample_text));
     (["data"; "extracted"; "GSE1"; "b.gz"], File "junk");
     (["data"; "extracted"; "GSE1"; "c.gz"], File ("gz:" +:+ sample_text))]))
    [].

(** C2, at the failing input.  With three extracted files of which [b.gz]
    decompresses to a section with a row of three fields under a header of
    two, [ProcessFiles.run] raises pandas' [ParserError]: nothing is
    logged, the marker of the stage is not written, and the file listed
    after [b.gz] is not attempted. *)
Theorem process_raises_on_parser_error :
  let r := ProcessFiles_run stored_gzip "GSE1" ragged_world in
  r.1 = Raise (Pandas.too_many_fields 2 3 3)
  ∧ log r.2 = []
  ∧ files r.2 !! output Process "GSE1" = None
  ∧ files r.2 !! ["data"; "processed"; "GSE1"; "b"; "b.txt"]
    = Some (File ragged_text)
  ∧ files r.2 !! ["data"; "processed"; "GSE1"; "a"] = None.
Proof. by vm_compute. Qed.

(** The part of C2 that holds: a file that is no gzip file is logged and
    skipped, the other files are processed and the marker is written. *)
Lemma process_skips_corrupt_gzip :
  let r := ProcessFiles_run stored_gzip "GSE1" corrupt_world in
  r.1 = Ok tt
  ∧ log r.2
    = [LogRecord ERROR
         "Failed to decompress data/extracted/GSE1/b.gz: Not a gzipped file"]
  ∧ files r.2 !! output Process "GSE1" = Some (File "done")
  ∧ is_Some
      (files r.2 !! ["data"; "processed"; "GSE1"; "a"; "tables"; "A.tsv"])
  ∧ is_Some
      (files r.2 !! ["data"; "processed"; "GSE1"; "c"; "tables"; "B.tsv"])
  ∧ files r.2 !! ["data"; "processed"; "GSE1"; "b"; "tables"] = None.
Proof. vm_compute. by split_and!; try eexists. Qed.

(** ** Cleanup *)

Definition processed_dirs : list (list string * node) :=
  [(["data"], Dir); (["data"; "processed"], Dir);
   (["data"; "processed"; "GSE1"], Dir);
   (["data"; "processed"; "GSE1"; "_processed"], File "done")].

(** The processed directory of a file [a.gz] without section: the text
    and an empty directory of tables. *)
Definition no_tables_world : world :=
  World (list_to_map (processed_dirs ++
    [(["data"; "processed"; "GSE1"; "a"], Dir);
     (["data"; "processed"; "GSE1"; "a"; "a.txt"], File "no section");
     (["data"; "processed"; "GSE1"; "a"; "tables"], Dir)])) [].

(** The processed directory of a file [a.txt.gz], as [ProcessFiles.run]
    lays it out: the directory is named [a.txt]. *)
Definition txt_directory_world : world :=
  World (list_to_map (processed_dirs ++
    [(["data"; "processed"; "GSE1"; "a.txt"], Dir);
     (["data"; "processed"; "GSE1"; "a.txt"; "a.txt.txt"], File "text");
     (["data"; "processed"; "GSE1"; "a.txt"; "tables"], Dir)])) [].

(** C8, at the failing input.  [Cleanup.run] deletes the text file and
    removes the empty directory of tables, and returns; the directory [a],
    which this left empty, remains: it was visited before its entries. *)
Theorem cleanup_leaves_emptied_parent :
  let a := ["data"; "processed"; "GSE1"; "a"] in
  let r := Cleanup_run "GSE1" no_tables_world in
  r.1 = Ok tt
  ∧ files r.2 !! (a ++ ["a.txt"]) = None
  ∧ files r.2 !! (a ++ ["tables"]) = None
  ∧ files r.2 !! a = Some Dir
  ∧ FS.scandir (files r.2) a = []
  ∧ FS.scandir (files no_tables_world) a ≠ [].
Proof. by vm_compute. Qed.

(** A directory whose name ends in [.txt] matches the pattern of the
    first loop; [unlink] raises on it and the task fails. *)
Lemma cleanup_raises_on_txt_directory :
  let r := Cleanup_run "GSE1" txt_directory_world in
  r.1 = Raise (FS.os_error IsADirectoryError
                 ["data"; "processed"; "GSE1"; "a.txt"])
  ∧ files r.2 !! output Cleanup "GSE1" = None.
Proof. by vm_compute. Qed.
